(** * StoreRegistry (starlite/stores/registry.py)

    A shallow embedding of the store registry of starlite.

    - A [Store] is a Python object: it has an identity ([store_id]) and a
      truth value ([store_truthy], the result of [bool(store)], which is
      [True] unless the store's class defines [__bool__] or [__len__]).
      Two stores are "the identical instance" when they are equal values.
    - The registry's mutable dictionary [_stores] is a [gmap string Store];
      [_default_factory] is a [Callable[[str], Store]], i.e. a function
      that may allocate objects on the heap or raise an exception.
    - The factory acts on the object heap; it does not reach back into the
      registry that calls it.
    - Every invocation of the default factory is recorded in a ghost log
      [sys_calls], so that the number of invocations can be stated. *)

From stdpp Require Import base gmap strings list.

(** ** Python values *)

Record Store := mkStore { store_id : nat; store_truthy : bool }.

Global Instance Store_eq_dec : EqDecision Store.
Proof. solve_decision. Defined.

(** Python exceptions.  [StoreExistsError name] is the exception raised by
    [register]: [ValueError(f"Store with the name {name!r} already exists")],
    kept with the name it is formatted from.  [OtherError] stands for any
    other exception a user-supplied factory may raise. *)
Inductive PyExc :=
| StoreExistsError (name : string)
| OtherError (cls : string) (msg : string).

(** Outcome of a Python call: a return value or a raised exception. *)
Inductive res (A : Type) :=
| Ok (a : A)
| Raise (e : PyExc).
Arguments Ok {A} a.
Arguments Raise {A} e.

(** The object heap: the allocator of fresh object identities. *)
Record Heap := mkHeap { next_oid : nat }.

(** A [Callable[[str], Store]]. *)
Definition Factory := string -> Heap -> res Store * Heap.

(** ** The registry and the system state *)

Record StoreRegistry := mkRegistry {
  _stores : gmap string Store;
  _default_factory : Factory
}.

Record Sys := mkSys {
  sys_reg : StoreRegistry;
  sys_heap : Heap;
  sys_calls : list string  (* ghost: names the factory was invoked with *)
}.

(** A method on the registry: a state and exception effect on [Sys]. *)
Definition Op (A : Type) := Sys -> res A * Sys.

Definition set_stores (m : gmap string Store) (s : Sys) : Sys :=
  mkSys (mkRegistry m (_default_factory (sys_reg s))) (sys_heap s) (sys_calls s).

(** [MemoryStore()].

    Modelled from the spec: [MemoryStore] (starlite/stores/memory.py is not
    in src) "constructs a fresh in-memory store": a new object, with a new
    identity.  Its class defines neither [__bool__] nor [__len__], so the
    object is truthy. *)
Definition MemoryStore : Heap -> res Store * Heap :=
  fun h => (Ok (mkStore (next_oid h) true), mkHeap (S (next_oid h))).

(** [def default_default_factory(name): return MemoryStore()] *)
Definition default_default_factory : Factory :=
  fun (name : string) h => MemoryStore h.

(** [StoreRegistry.__init__(stores=None, default_factory=default_default_factory)]:
    [self._stores = stores or {}] (an empty or missing dict gives a fresh
    empty dict). *)
Definition StoreRegistry_init (stores : option (gmap string Store))
    (default_factory : option Factory) : StoreRegistry :=
  mkRegistry
    (match stores with Some m => m | None => ∅ end)
    (match default_factory with Some f => f | None => default_default_factory end).

(** [if not override and name in self._stores: raise ValueError(...)]
    [self._stores[name] = store] *)
Definition register (name : string) (store : Store) (override : bool) : Op unit :=
  fun s =>
    if negb override && bool_decide (is_Some (_stores (sys_reg s) !! name))
    then (Raise (StoreExistsError name), s)
    else (Ok tt, set_stores (<[name := store]> (_stores (sys_reg s))) s).

(** [self._default_factory(name)], recorded in the ghost log. *)
Definition call_factory (name : string) (s : Sys) : res Store * Sys :=
  let '(r, h') := _default_factory (sys_reg s) name (sys_heap s) in
  (r, mkSys (sys_reg s) h' (sys_calls s ++ [name])).

(** [store = self._stores[name] = self._default_factory(name)]: the call is
    evaluated first; when it raises, nothing is assigned. *)
Definition get_miss (name : string) : Op Store :=
  fun s =>
    match call_factory name s with
    | (Ok st, s') => (Ok st, set_stores (<[name := st]> (_stores (sys_reg s'))) s')
    | (Raise e, s') => (Raise e, s')
    end.

(** [store = self._stores.get(name)]
    [if not store: store = self._stores[name] = self._default_factory(name)]
    [return store]

    [not store] holds for [None] and for a falsy store. *)
Definition get (name : string) : Op Store :=
  fun s =>
    match _stores (sys_reg s) !! name with
    | Some st => if store_truthy st then (Ok st, s) else get_miss name s
    | None => get_miss name s
    end.

(** [@property default: return self.get("default")] *)
Definition default : Op Store := get "default".

(** ** [get] under thread interleaving

    [get] takes no lock.  Run by several threads, the body of [get] can be
    interrupted between its three steps: the lookup and truth test, the
    factory call, and the assignment into the dictionary.  A thread is the
    program point it is at. *)

Inductive GetThread :=
| GT_start (name : string)                 (* before [self._stores.get(name)] *)
| GT_miss (name : string)                  (* [not store] held *)
| GT_called (name : string) (st : Store)   (* the factory returned [st] *)
| GT_return (st : Store)                   (* [return store] *)
| GT_raised (e : PyExc).                   (* the factory raised [e] *)

Definition get_step (t : GetThread) (s : Sys) : GetThread * Sys :=
  match t with
  | GT_start name =>
      match _stores (sys_reg s) !! name with
      | Some st => if store_truthy st then (GT_return st, s) else (GT_miss name, s)
      | None => (GT_miss name, s)
      end
  | GT_miss name =>
      match call_factory name s with
      | (Ok st, s') => (GT_called name st, s')
      | (Raise e, s') => (GT_raised e, s')
      end
  | GT_called name st => (GT_return st, set_stores (<[name := st]> (_stores (sys_reg s))) s)
  | GT_return _ | GT_raised _ => (t, s)
  end.

Definition Config := (list GetThread * Sys)%type.

(** The scheduler runs one step of thread [i]. *)
Definition sched_step (c : Config) (i : nat) : Config :=
  match c.1 !! i with
  | Some t => let '(t', s') := get_step t c.2 in (<[i := t']> c.1, s')
  | None => c
  end.

Definition run (sched : list nat) (c : Config) : Config := fold_left sched_step sched c.

Definition thread_done (t : GetThread) : bool :=
  match t with GT_return _ | GT_raised _ => true | _ => false end.

Definition thread_result (t : GetThread) : option Store :=
  match t with GT_return st => Some st | _ => None end.

(** The spec's create-once contract for [n] threads calling [get name]
    concurrently from state [s]: whenever all threads have finished, the
    factory was invoked exactly once and every thread received the same
    store. *)
Definition create_once (name : string) (n : nat) (s : Sys) : Prop :=
  forall sched,
    let c := run sched (replicate n (GT_start name), s) in
    forallb thread_done c.1 = true ->
    length (sys_calls c.2) = S (length (sys_calls s)) /\
    exists st, Forall (fun t => thread_result t = Some st) c.1.

(** Schedules of two threads that each run [get] to its end: the
    interleavings of the three steps of thread 0 with the three steps of
    thread 1. *)
Fixpoint interleave (l1 : list nat) : list nat -> list (list nat) :=
  match l1 with
  | [] => fun l2 => [l2]
  | x :: r1 =>
      fix go (l2 : list nat) : list (list nat) :=
        match l2 with
        | [] => [x :: r1]
        | y :: r2 => map (cons x) (interleave r1 (y :: r2)) ++ map (cons y) (go r2)
        end
  end.

Definition two_get_schedules : list (list nat) := interleave [0; 0; 0]%nat [1; 1; 1]%nat.

(** Position in [sched] of the [k]-th (from 0) step of thread [i]. *)
Fixpoint step_pos (i k : nat) (sched : list nat) : nat :=
  match sched with
  | [] => 0
  | j :: rest =>
      if Nat.eqb i j then (match k with 0 => 0 | S k' => S (step_pos i k' rest) end)
      else S (step_pos i k rest)
  end.

(** Both lookups (step 0) come before either insert (step 2). *)
Definition lookups_before_inserts (sched : list nat) : bool :=
  Nat.ltb (step_pos 1 0 sched) (step_pos 0 2 sched) &&
  Nat.ltb (step_pos 0 0 sched) (step_pos 1 2 sched).

(** The thread whose factory call (step 1) comes first. *)
Definition first_caller (sched : list nat) : nat :=
  if Nat.ltb (step_pos 0 1 sched) (step_pos 1 1 sched) then 0 else 1.

(** The thread whose insert (step 2) comes last. *)
Definition last_inserter (sched : list nat) : nat :=
  if Nat.ltb (step_pos 0 2 sched) (step_pos 1 2 sched) then 1 else 0.

(** ** Concrete registries *)

(** A factory whose stores are falsy when new: a [Store] subclass that
    defines [__len__] as its number of keys, e.g.
    [class SizedStore(MemoryStore): def __len__(self): return len(self._store)]. *)
Definition SizedStore : Heap -> res Store * Heap :=
  fun h => (Ok (mkStore (next_oid h) false), mkHeap (S (next_oid h))).

Definition sized_factory : Factory := fun (name : string) h => SizedStore h.

(** A factory that raises, e.g. one that cannot reach an external cache. *)
Definition failing_factory : Factory :=
  fun (name : string) h => (Raise (OtherError "ConnectionError" "cache unreachable"), h).

(** A registry fresh from [StoreRegistry(default_factory=f)]. *)
Definition sys_init (f : option Factory) : Sys :=
  mkSys (StoreRegistry_init None f) (mkHeap 0) [].

(** ** General facts about [register] and [get] *)

Lemma register_fails (name : string) (st : Store) (override : bool) (s : Sys) :
  override = false -> is_Some (_stores (sys_reg s) !! name) ->
  register name st override s = (Raise (StoreExistsError name), s).
Proof.
  intros -> Hin. unfold register. rewrite bool_decide_eq_true_2 by exact Hin. done.
Qed.

Lemma register_succeeds (name : string) (st : Store) (override : bool) (s : Sys) :
  (override = true \/ _stores (sys_reg s) !! name = None) ->
  register name st override s =
    (Ok tt, set_stores (<[name := st]> (_stores (sys_reg s))) s).
Proof.
  intros [-> | Hnone]; unfold register; [done |].
  rewrite bool_decide_eq_false_2; [by rewrite andb_false_r |].
  rewrite Hnone. by intros [? ?].
Qed.

Lemma get_hit (name : string) (st : Store) (s : Sys) :
  _stores (sys_reg s) !! name = Some st -> store_truthy st = true ->
  get name s = (Ok st, s).
Proof. intros Hl Ht. unfold get. by rewrite Hl, Ht. Qed.

Lemma get_miss_ok (name : string) (st : Store) (h' : Heap) (s : Sys) :
  _default_factory (sys_reg s) name (sys_heap s) = (Ok st, h') ->
  get_miss name s =
    (Ok st, mkSys (mkRegistry (<[name := st]> (_stores (sys_reg s)))
                              (_default_factory (sys_reg s)))
                  h' (sys_calls s ++ [name])).
Proof. intros Hf. unfold get_miss, call_factory. by rewrite Hf. Qed.

Lemma get_miss_raise (name : string) (e : PyExc) (h' : Heap) (s : Sys) :
  _default_factory (sys_reg s) name (sys_heap s) = (Raise e, h') ->
  get_miss name s = (Raise e, mkSys (sys_reg s) h' (sys_calls s ++ [name])).
Proof. intros Hf. unfold get_miss, call_factory. by rewrite Hf. Qed.

(** Any exception out of [get] is the one the factory raised. *)
Lemma get_raise_from_factory (name : string) (e : PyExc) (s s' : Sys) :
  get name s = (Raise e, s') ->
  exists h', _default_factory (sys_reg s) name (sys_heap s) = (Raise e, h').
Proof.
  unfold get, get_miss, call_factory.
  destruct (_stores (sys_reg s) !! name) as [st |];
    [destruct (store_truthy st); [congruence |] |];
    destruct (_default_factory (sys_reg s) name (sys_heap s)) as [[a | e'] h'] eqn:Hf;
    intros [= ->]; eauto.
Qed.

(** On a truthy bound store the two calls agree: the positive side of the
    claims about repeated [get]s. *)
Lemma get_get_truthy (name : string) (s : Sys) (st : Store) :
  fst (get name s) = Ok st -> store_truthy st = true ->
  get name (snd (get name s)) = (Ok st, snd (get name s)).
Proof.
  unfold get, get_miss, call_factory.
  destruct (_stores (sys_reg s) !! name) as [st0 |] eqn:Hl;
    [destruct (store_truthy st0) eqn:Ht0 |];
    [| destruct (_default_factory (sys_reg s) name (sys_heap s)) as [[a | e] h'] ..];
    simpl; intros Hr Ht; try discriminate; injection Hr as <-;
    rewrite ?Hl, ?Ht0, ?lookup_insert_eq, ?Ht; done.
Qed.

(** [default] is [get "default"] on every state. *)
Lemma default_is_get (s : Sys) : default s = get "default" s.
Proof. reflexivity. Qed.

(** A thread that runs alone does what [get] does. *)
Lemma get_steps_alone (name : string) (s : Sys) :
  run [0; 0; 0]%nat ([GT_start name], s) =
    match get name s with
    | (Ok st, s') => ([GT_return st], s')
    | (Raise e, s') => ([GT_raised e], s')
    end.
Proof.
  unfold run, get, get_miss, call_factory. cbn.
  destruct (_stores (sys_reg s) !! name) as [st |];
    [destruct (store_truthy st) |]; cbn.
  1: done.
  all: unfold call_factory;
    destruct (_default_factory (sys_reg s) name (sys_heap s)) as [[a | e] h']; done.
Qed.

(** Steps of the two-thread scheduler, read off [sched_step] and [get_step]. *)
Lemma sched_step_0 (t0 t1 : GetThread) (s : Sys) :
  sched_step ([t0; t1], s) 0 = ([fst (get_step t0 s); t1], snd (get_step t0 s)).
Proof. unfold sched_step. cbn. by destruct (get_step t0 s). Qed.

Lemma sched_step_1 (t0 t1 : GetThread) (s : Sys) :
  sched_step ([t0; t1], s) 1 = ([t0; fst (get_step t1 s)], snd (get_step t1 s)).
Proof. unfold sched_step. cbn. by destruct (get_step t1 s). Qed.

Lemma get_step_start (m : gmap string Store) (f : Factory) (h : Heap) (c : list string)
    (name : string) :
  m !! name = None ->
  get_step (GT_start name) (mkSys (mkRegistry m f) h c) = (GT_miss name, mkSys (mkRegistry m f) h c).
Proof. intros Hm. cbn. by rewrite Hm. Qed.

Lemma get_step_miss (m : gmap string Store) (f : Factory) (h : Heap) (c : list string)
    (name : string) (st : Store) (h' : Heap) :
  f name h = (Ok st, h') ->
  get_step (GT_miss name) (mkSys (mkRegistry m f) h c) =
    (GT_called name st, mkSys (mkRegistry m f) h' (c ++ [name])).
Proof. intros Hf. unfold get_step, call_factory. cbn. by rewrite Hf. Qed.

Lemma get_step_called (m : gmap string Store) (f : Factory) (h : Heap) (c : list string)
    (name : string) (st : Store) :
  get_step (GT_called name st) (mkSys (mkRegistry m f) h c) =
    (GT_return st, mkSys (mkRegistry (<[name := st]> m) f) h c).
Proof. reflexivity. Qed.

(** ** Claims *)

(** C1.  [get] tests [not store] instead of presence: when the
    factory returns a falsy store (here a new, empty [SizedStore]), the
    first [get "x"] invokes the factory once and stores the result, but a
    second [get "x"] invokes the factory again and returns a different
    store. *)
Theorem get_twice_falsy_store_reinvokes :
  let s0 := sys_init (Some sized_factory) in
  let '(r1, s1) := get "x" s0 in
  let '(r2, s2) := get "x" s1 in
  r1 = Ok (mkStore 0 false) /\ _stores (sys_reg s1) !! "x" = Some (mkStore 0 false) /\
  sys_calls s1 = ["x"] /\
  r2 = Ok (mkStore 1 false) /\ sys_calls s2 = ["x"; "x"] /\ r1 <> r2.
Proof. vm_compute. repeat split; congruence. Qed.

(** C2.  A registry whose entry ["x"] is a falsy store: a
    [get "x"] replaces the entry with a new store from the factory. *)
Theorem get_replaces_falsy_entry :
  let s0 := mkSys (StoreRegistry_init (Some {[ "x" := mkStore 0 false ]}) None)
                  (mkHeap 1) [] in
  let '(r, s1) := get "x" s0 in
  r = Ok (mkStore 1 true) /\
  _stores (sys_reg s1) !! "x" = Some (mkStore 1 true) /\
  _stores (sys_reg s0) !! "x" = Some (mkStore 0 false).
Proof. vm_compute. repeat split. Qed.

(** C3.  After [register("x", A)] with a falsy [A], [get "x"]
    invokes the default factory and returns its store, not [A]. *)
Theorem register_falsy_then_get :
  let A := mkStore 7 false in
  let s0 := sys_init None in
  let '(r1, s1) := register "x" A false s0 in
  let '(r2, s2) := get "x" s1 in
  r1 = Ok tt /\ r2 = Ok (mkStore 0 true) /\ r2 <> Ok A /\ sys_calls s2 = ["x"].
Proof. vm_compute. repeat split; congruence. Qed.

(** C4.  [register("x", A)] then [register("x", B)] raises and
    leaves the entry [A]; but with a falsy [A] the following [get "x"]
    returns a store from the factory, not [A]. *)
Theorem register_duplicate_then_get_falsy :
  let A := mkStore 7 false in
  let B := mkStore 8 true in
  let s0 := sys_init None in
  let '(_, s1) := register "x" A false s0 in
  let '(r2, s2) := register "x" B false s1 in
  let '(r3, _) := get "x" s2 in
  r2 = Raise (StoreExistsError "x") /\ s2 = s1 /\
  _stores (sys_reg s2) !! "x" = Some A /\
  r3 = Ok (mkStore 0 true) /\ r3 <> Ok A.
Proof. vm_compute. repeat split; congruence. Qed.

(** C5.  When [get name] misses and the factory raises [e], [get] raises
    exactly [e] after a single factory invocation (no retry, no fallback),
    and the registry is left as it was: still no entry under [name]. *)
Theorem get_factory_raise_propagates (name : string) (s : Sys) (e : PyExc) (h' : Heap)
  (Habsent : _stores (sys_reg s) !! name = None)
  (Hraise : _default_factory (sys_reg s) name (sys_heap s) = (Raise e, h')) :
  get name s = (Raise e, mkSys (sys_reg s) h' (sys_calls s ++ [name])) /\
  _stores (sys_reg (snd (get name s))) !! name = None.
Proof.
  assert (Hg : get name s = (Raise e, mkSys (sys_reg s) h' (sys_calls s ++ [name]))).
  { unfold get. rewrite Habsent. by apply get_miss_raise. }
  split; [exact Hg |]. by rewrite Hg.
Qed.

Lemma get_factory_raise_propagates_witness :
  let s := sys_init (Some failing_factory) in
  let e := OtherError "ConnectionError" "cache unreachable" in
  (_stores (sys_reg s) !! "sessions" = None /\
   _default_factory (sys_reg s) "sessions" (sys_heap s) = (Raise e, sys_heap s)) /\
  (get "sessions" s = (Raise e, mkSys (sys_reg s) (sys_heap s) (sys_calls s ++ ["sessions"])) /\
   _stores (sys_reg (snd (get "sessions" s))) !! "sessions" = None).
Proof.
  split; [split; reflexivity |].
  apply get_factory_raise_propagates; reflexivity.
Defined.

(** C6.  [default] is [get "default"] (see [default_is_get]),
    but with a factory that returns falsy stores, a second call to
    [default] invokes the factory again and returns another instance. *)
Theorem default_twice_falsy_store :
  let s0 := sys_init (Some sized_factory) in
  let '(r1, s1) := default s0 in
  let '(r2, s2) := default s1 in
  let '(r3, s3) := get "default" s1 in
  default s0 = get "default" s0 /\
  r1 = Ok (mkStore 0 false) /\ r2 = Ok (mkStore 1 false) /\ r3 = r2 /\
  sys_calls s2 = ["default"; "default"].
Proof. vm_compute. repeat split. Qed.

(** C7.  The fallback factory ignores the name and allocates a fresh,
    truthy in-memory store at each call; so two [get]s on distinct,
    never-registered names return two distinct stores, one factory
    invocation each. *)
Theorem default_factory_distinct_stores (s : Sys) (a b : string)
  (Hf : _default_factory (sys_reg s) = default_default_factory)
  (Hab : a <> b)
  (Ha : _stores (sys_reg s) !! a = None) (Hb : _stores (sys_reg s) !! b = None) :
  (forall (n : string) (h : Heap),
     default_default_factory n h = (Ok (mkStore (next_oid h) true), mkHeap (S (next_oid h)))) /\
  exists sa sb,
    fst (get a s) = Ok sa /\ fst (get b (snd (get a s))) = Ok sb /\ sa <> sb /\
    sys_calls (snd (get b (snd (get a s)))) = sys_calls s ++ [a; b].
Proof.
  split; [done |].
  set (n := next_oid (sys_heap s)).
  assert (Ha' : get a s = (Ok (mkStore n true),
            mkSys (mkRegistry (<[a := mkStore n true]> (_stores (sys_reg s)))
                              (_default_factory (sys_reg s)))
                  (mkHeap (S n)) (sys_calls s ++ [a]))).
  { unfold get. rewrite Ha. apply get_miss_ok. by rewrite Hf. }
  rewrite Ha'. cbn [fst snd].
  assert (Hb' : get b (mkSys (mkRegistry (<[a := mkStore n true]> (_stores (sys_reg s)))
                                         (_default_factory (sys_reg s)))
                             (mkHeap (S n)) (sys_calls s ++ [a])) =
          (Ok (mkStore (S n) true),
           mkSys (mkRegistry (<[b := mkStore (S n) true]> (<[a := mkStore n true]> (_stores (sys_reg s))))
                             (_default_factory (sys_reg s)))
                 (mkHeap (S (S n))) ((sys_calls s ++ [a]) ++ [b]))).
  { unfold get. cbn [sys_reg _stores]. rewrite lookup_insert_ne by congruence.
    rewrite Hb, (get_miss_ok b (mkStore (S n) true) (mkHeap (S (S n)))); [done |].
    cbn. by rewrite Hf. }
  rewrite Hb'. cbn [fst snd sys_calls].
  exists (mkStore n true), (mkStore (S n) true).
  split; [done |]. split; [done |]. split; [intros [=]; lia |].
  by rewrite <- app_assoc.
Qed.

Lemma default_factory_distinct_stores_witness :
  let s := sys_init None in
  (_default_factory (sys_reg s) = default_default_factory /\ "a" <> "b" /\
   _stores (sys_reg s) !! "a" = None /\ _stores (sys_reg s) !! "b" = None) /\
  ((forall (n : string) (h : Heap),
     default_default_factory n h = (Ok (mkStore (next_oid h) true), mkHeap (S (next_oid h)))) /\
   exists sa sb,
     fst (get "a" s) = Ok sa /\ fst (get "b" (snd (get "a" s))) = Ok sb /\ sa <> sb /\
     sys_calls (snd (get "b" (snd (get "a" s)))) = sys_calls s ++ ["a"; "b"]).
Proof.
  split; [split; [reflexivity | split; [discriminate | split; reflexivity]] |].
  apply default_factory_distinct_stores; [reflexivity | discriminate | reflexivity | reflexivity].
Defined.

(** C9.  The empty name is not validated: [register("", A)]
    succeeds on a fresh registry and a second registration under [""]
    raises like for any name.  But with a falsy [A], [get ""] does not
    return the bound store: it invokes the factory with [""]. *)
Theorem empty_name_register_get_falsy :
  let A := mkStore 7 false in
  let s0 := sys_init None in
  let '(r1, s1) := register "" A false s0 in
  let '(r2, _) := register "" A false s1 in
  let '(r3, s3) := get "" s1 in
  r1 = Ok tt /\ _stores (sys_reg s1) !! "" = Some A /\
  r2 = Raise (StoreExistsError "") /\
  r3 = Ok (mkStore 0 true) /\ r3 <> Ok A /\ sys_calls s3 = [""].
Proof. vm_compute. repeat split; congruence. Qed.

(** C10.  [register n] and [get n] leave the entry (or its absence) under
    any other name [m] as it was, and never change the default factory. *)
Theorem ops_frame_other_names (n m : string) (st : Store) (override : bool) (s : Sys)
  (Hnm : n <> m) :
  _stores (sys_reg (snd (register n st override s))) !! m = _stores (sys_reg s) !! m /\
  _default_factory (sys_reg (snd (register n st override s))) = _default_factory (sys_reg s) /\
  _stores (sys_reg (snd (get n s))) !! m = _stores (sys_reg s) !! m /\
  _default_factory (sys_reg (snd (get n s))) = _default_factory (sys_reg s).
Proof.
  assert (Hmiss : forall s0, sys_reg s0 = sys_reg s ->
            _stores (sys_reg (snd (get_miss n s0))) !! m = _stores (sys_reg s) !! m /\
            _default_factory (sys_reg (snd (get_miss n s0))) = _default_factory (sys_reg s)).
  { intros s0 Hs0. unfold get_miss, call_factory.
    destruct (_default_factory (sys_reg s0) n (sys_heap s0)) as [[a | e] h']; cbn;
      rewrite Hs0; [| done]. by rewrite lookup_insert_ne. }
  split; [| split; [| split]].
  - unfold register. destruct (_ && _); cbn; [done |]. by rewrite lookup_insert_ne.
  - unfold register. by destruct (_ && _).
  - unfold get. destruct (_stores (sys_reg s) !! n) as [st0 |];
      [destruct (store_truthy st0) |]; [done | apply Hmiss; done ..].
  - unfold get. destruct (_stores (sys_reg s) !! n) as [st0 |];
      [destruct (store_truthy st0) |]; [done | apply Hmiss; done ..].
Qed.

Lemma ops_frame_other_names_witness :
  let s := mkSys (StoreRegistry_init (Some {[ "m" := mkStore 0 true ]}) None) (mkHeap 1) [] in
  "n" <> "m" /\
  _stores (sys_reg (snd (register "n" (mkStore 5 true) false s))) !! "m" = _stores (sys_reg s) !! "m" /\
  _default_factory (sys_reg (snd (register "n" (mkStore 5 true) false s))) = _default_factory (sys_reg s) /\
  _stores (sys_reg (snd (get "n" s))) !! "m" = _stores (sys_reg s) !! "m" /\
  _default_factory (sys_reg (snd (get "n" s))) = _default_factory (sys_reg s).
Proof. split; [discriminate |]. apply ops_frame_other_names. discriminate. Defined.

(** C8.  The create-once contract fails: two threads calling [get "y"] on
    a fresh registry, both looking up before either inserts, invoke the
    factory twice and receive two different stores. *)
Lemma racy_get_counterexample : ~ create_once "y" 2 (sys_init None).
Proof.
  intros H. specialize (H [0; 1; 0; 0; 1; 1]%nat). vm_compute in H.
  destruct (H eq_refl) as [Hlen _]. discriminate.
Qed.

(** C8, as the code behaves.  Two threads call [get name] on a
    never-seen [name], in any interleaving where both lookups come before
    either insert.  Each thread invokes the factory (two invocations in
    all) and returns the store of its own invocation: the first caller the
    store of the first call, the other the store of the second.  The entry
    keeps the store of the thread that inserted last.  With the fallback
    factory the two stores are distinct instances. *)
Theorem racy_get_two_factory_calls (s : Sys) (name : string) (sched : list nat)
  (a b : Store) (h1 h2 : Heap)
  (Habsent : _stores (sys_reg s) !! name = None)
  (Hf1 : _default_factory (sys_reg s) name (sys_heap s) = (Ok a, h1))
  (Hf2 : _default_factory (sys_reg s) name h1 = (Ok b, h2))
  (Hsched : sched ∈ two_get_schedules)
  (Hrace : lookups_before_inserts sched = true) :
  run sched ([GT_start name; GT_start name], s) =
    (if Nat.eqb (first_caller sched) 0 then [GT_return a; GT_return b]
     else [GT_return b; GT_return a],
     mkSys (mkRegistry
              (<[name := if Nat.eqb (last_inserter sched) (first_caller sched) then a else b]>
                 (_stores (sys_reg s)))
              (_default_factory (sys_reg s)))
           h2 (sys_calls s ++ [name; name])) /\
  (_default_factory (sys_reg s) = default_default_factory -> a <> b).
Proof.
  split.
  - destruct s as [[m f] h calls]. cbn [sys_reg sys_heap sys_calls _stores _default_factory] in *.
    apply list_elem_of_In in Hsched. vm_compute in Hsched.
    repeat destruct Hsched as [<- | Hsched]; try contradiction;
      vm_compute in Hrace; try discriminate Hrace;
      cbn [first_caller last_inserter step_pos Nat.eqb Nat.ltb Nat.leb];
      unfold run; cbn [fold_left];
      repeat (first [rewrite sched_step_0 | rewrite sched_step_1];
              first [rewrite (get_step_start _ _ _ _ _ Habsent)
                    | rewrite (get_step_miss _ _ _ _ _ _ _ Hf1)
                    | rewrite (get_step_miss _ _ _ _ _ _ _ Hf2)
                    | rewrite get_step_called];
              cbn [fst snd]);
      rewrite ?insert_insert_eq, <- ?app_assoc; reflexivity.
  - intros Hf. rewrite Hf in Hf1, Hf2. cbn in Hf1, Hf2.
    injection Hf1 as <- <-. injection Hf2 as <- _. cbn. intros [= Hn]. lia.
Qed.

Lemma racy_get_two_factory_calls_witness :
  let s := sys_init None in
  (_stores (sys_reg s) !! "y" = None /\
   _default_factory (sys_reg s) "y" (sys_heap s) = (Ok (mkStore 0 true), mkHeap 1) /\
   _default_factory (sys_reg s) "y" (mkHeap 1) = (Ok (mkStore 1 true), mkHeap 2) /\
   [0; 1; 1; 1; 0; 0]%nat ∈ two_get_schedules /\
   lookups_before_inserts [0; 1; 1; 1; 0; 0]%nat = true) /\
  (run [0; 1; 1; 1; 0; 0]%nat ([GT_start "y"; GT_start "y"], s) =
    (if Nat.eqb (first_caller [0; 1; 1; 1; 0; 0]%nat) 0
     then [GT_return (mkStore 0 true); GT_return (mkStore 1 true)]
     else [GT_return (mkStore 1 true); GT_return (mkStore 0 true)],
     mkSys (mkRegistry
              (<["y" := if Nat.eqb (last_inserter [0; 1; 1; 1; 0; 0]%nat)
                                   (first_caller [0; 1; 1; 1; 0; 0]%nat)
                        then mkStore 0 true else mkStore 1 true]>
                 (_stores (sys_reg s)))
              (_default_factory (sys_reg s)))
           (mkHeap 2) (sys_calls s ++ ["y"; "y"])) /\
   (_default_factory (sys_reg s) = default_default_factory -> mkStore 0 true <> mkStore 1 true)).
Proof.
  assert (Hin : [0; 1; 1; 1; 0; 0]%nat ∈ two_get_schedules).
  { apply list_elem_of_In. vm_compute. repeat (first [left; reflexivity | right]). }
  split; [split; [reflexivity | split; [reflexivity | split; [reflexivity | split; [exact Hin | reflexivity]]]] |].
  apply (racy_get_two_factory_calls (sys_init None) "y" [0; 1; 1; 1; 0; 0]%nat
           (mkStore 0 true) (mkStore 1 true) (mkHeap 1) (mkHeap 2)); [reflexivity | reflexivity | reflexivity | exact Hin | reflexivity].
Defined.

(** ** Further properties of the registry *)

(** Registering twice under one name with [override=True] the second
    time: the second store wins, whatever the first call did. *)
Theorem register_override_last_wins (name : string) (a b : Store) (ov : bool) (s : Sys) :
  register name b true (snd (register name a ov s)) = register name b true s.
Proof.
  unfold register. destruct (negb ov && _); cbn.
  - done.
  - unfold set_stores; cbn. by rewrite insert_insert_eq.
Qed.

(** Registrations under distinct names commute. *)
Theorem register_commute (n m : string) (a b : Store) (ov1 ov2 : bool) (s : Sys) :
  n <> m ->
  snd (register m b ov2 (snd (register n a ov1 s))) =
  snd (register n a ov1 (snd (register m b ov2 s))).
Proof.
  intros Hnm. destruct s as [[st f] h calls]. unfold register, set_stores; cbn.
  destruct (negb ov1 && bool_decide (is_Some (st !! n))) eqn:E1;
  destruct (negb ov2 && bool_decide (is_Some (st !! m))) eqn:E2; cbn;
    rewrite ?lookup_insert_ne by congruence; rewrite ?E1, ?E2; cbn; try done.
  by rewrite insert_insert_ne.
Qed.

Lemma register_commute_witness :
  "n" <> "m" /\
  snd (register "m" (mkStore 1 true) false (snd (register "n" (mkStore 0 true) false (sys_init None)))) =
  snd (register "n" (mkStore 0 true) false (snd (register "m" (mkStore 1 true) false (sys_init None)))).
Proof. split; [discriminate |]. apply register_commute. discriminate. Defined.

(** [get] never removes an entry: every name bound before is bound after. *)
Theorem get_keeps_bound (name k : string) (s : Sys) :
  is_Some (_stores (sys_reg s) !! k) -> is_Some (_stores (sys_reg (snd (get name s))) !! k).
Proof.
  intros Hk. unfold get, get_miss, call_factory.
  destruct (_stores (sys_reg s) !! name) as [st |]; [destruct (store_truthy st) |];
    try done;
    destruct (_default_factory (sys_reg s) name (sys_heap s)) as [[a | e] h']; cbn; try done;
    (destruct (decide (name = k)) as [-> | Hne];
     [rewrite lookup_insert_eq; eauto | by rewrite lookup_insert_ne]).
Qed.

Lemma get_keeps_bound_witness :
  let s := mkSys (StoreRegistry_init (Some {[ "k" := mkStore 0 false ]}) None) (mkHeap 1) [] in
  is_Some (_stores (sys_reg s) !! "k") /\ is_Some (_stores (sys_reg (snd (get "k" s))) !! "k").
Proof. split; [eexists; reflexivity |]. apply get_keeps_bound. eexists; reflexivity. Defined.

(** When [get name] returns a store, that store is what [name] maps to
    afterwards. *)
Theorem get_result_bound (name : string) (s : Sys) (st : Store) :
  fst (get name s) = Ok st -> _stores (sys_reg (snd (get name s))) !! name = Some st.
Proof.
  unfold get, get_miss, call_factory.
  destruct (_stores (sys_reg s) !! name) as [st0 |] eqn:Hl; [destruct (store_truthy st0) |];
    [cbn; intros [= ->]; done | ..];
    destruct (_default_factory (sys_reg s) name (sys_heap s)) as [[a | e] h']; cbn;
      intros Hr; try discriminate; injection Hr as ->; apply lookup_insert_eq.
Qed.

Lemma get_result_bound_witness :
  fst (get "x" (sys_init None)) = Ok (mkStore 0 true) /\
  _stores (sys_reg (snd (get "x" (sys_init None)))) !! "x" = Some (mkStore 0 true).
Proof. split; [reflexivity |]. apply get_result_bound. reflexivity. Defined.

Lemma get_lookup_other (m n : string) (s : Sys) :
  m <> n -> _stores (sys_reg (snd (get m s))) !! n = _stores (sys_reg s) !! n.
Proof.
  intros Hne. unfold get, get_miss, call_factory.
  destruct (_stores (sys_reg s) !! m) as [st |]; [destruct (store_truthy st) |]; [done | ..];
    destruct (_default_factory (sys_reg s) m (sys_heap s)) as [[a | e] h']; cbn;
    rewrite ?lookup_insert_ne; done.
Qed.

(** Running [get] on each name of a list, one call after another, whatever
    each call's outcome. *)
Definition get_each (names : list string) (s : Sys) : Sys :=
  fold_left (fun s0 m => snd (get m s0)) names s.

(** A truthy store bound under [n] stays bound through any sequence of
    [get] calls, and [get n] then returns it without calling the factory. *)
Theorem truthy_binding_stable (n : string) (st : Store) (names : list string) (s : Sys) :
  _stores (sys_reg s) !! n = Some st -> store_truthy st = true ->
  let s' := get_each names s in
  _stores (sys_reg s') !! n = Some st /\ get n s' = (Ok st, s').
Proof.
  intros Hl Ht. cbn zeta.
  assert (Hinv : _stores (sys_reg (get_each names s)) !! n = Some st).
  { unfold get_each. revert s Hl. induction names as [| m names IH]; intros s Hl; cbn; [done |].
    apply IH. destruct (decide (m = n)) as [-> | Hne].
    - by rewrite (get_hit n st s Hl Ht).
    - by rewrite get_lookup_other. }
  split; [done | by apply get_hit].
Qed.

Lemma truthy_binding_stable_witness :
  let s := mkSys (StoreRegistry_init (Some {[ "n" := mkStore 0 true ]}) (Some sized_factory))
                 (mkHeap 1) [] in
  (_stores (sys_reg s) !! "n" = Some (mkStore 0 true) /\ store_truthy (mkStore 0 true) = true) /\
  (_stores (sys_reg (get_each ["a"; "n"; "b"] s)) !! "n" = Some (mkStore 0 true) /\
   get "n" (get_each ["a"; "n"; "b"] s) = (Ok (mkStore 0 true), get_each ["a"; "n"; "b"] s)).
Proof. split; [split; reflexivity |]. apply truthy_binding_stable; reflexivity. Defined.

(** Every store held by the registry is truthy. *)
Definition all_truthy (s : Sys) : Prop :=
  map_Forall (fun _ st => store_truthy st = true) (_stores (sys_reg s)).

(** With the fallback factory, [get] keeps all stores truthy. *)
Lemma get_all_truthy (name : string) (s : Sys) :
  _default_factory (sys_reg s) = default_default_factory -> all_truthy s ->
  all_truthy (snd (get name s)).
Proof.
  intros Hf Hall. unfold get, get_miss, call_factory. rewrite Hf.
  destruct (_stores (sys_reg s) !! name) as [st |] eqn:Hl;
    [destruct (store_truthy st) eqn:Ht |]; cbn; [done | ..];
    apply map_Forall_insert_2; done.
Qed.

Lemma get_calls_length (name : string) (s : Sys) :
  length (sys_calls (snd (get name s))) <= S (length (sys_calls s)).
Proof.
  unfold get, get_miss, call_factory.
  destruct (_stores (sys_reg s) !! name) as [st |]; [destruct (store_truthy st) |]; cbn; [lia | ..];
    destruct (_default_factory (sys_reg s) name (sys_heap s)) as [[a | e] h']; cbn;
    rewrite length_app; cbn; lia.
Qed.

(** With the fallback factory and only truthy stores registered, the
    registry creates each store once: a second [get name] returns the
    store of the first without another factory call, and the registry
    still holds only truthy stores. *)
Theorem default_factory_create_once (name : string) (s : Sys) :
  _default_factory (sys_reg s) = default_default_factory -> all_truthy s ->
  exists st, fst (get name s) = Ok st /\
    get name (snd (get name s)) = (Ok st, snd (get name s)) /\
    length (sys_calls (snd (get name s))) <= S (length (sys_calls s)) /\
    all_truthy (snd (get name s)).
Proof.
  intros Hf Hall.
  assert (Hst : exists st, fst (get name s) = Ok st /\ store_truthy st = true).
  { unfold get, get_miss, call_factory. rewrite Hf.
    destruct (_stores (sys_reg s) !! name) as [st |] eqn:Hl;
      [destruct (store_truthy st) eqn:Ht |]; cbn; eauto. }
  destruct Hst as [st [Hr Ht]]. exists st.
  split; [done |]. split; [by apply get_get_truthy |].
  split; [| by apply get_all_truthy].
  apply get_calls_length.
Qed.

Lemma default_factory_create_once_witness :
  let s := mkSys (StoreRegistry_init (Some {[ "a" := mkStore 0 true ]}) None) (mkHeap 1) [] in
  (_default_factory (sys_reg s) = default_default_factory /\ all_truthy s) /\
  exists st, fst (get "b" s) = Ok st /\
    get "b" (snd (get "b" s)) = (Ok st, snd (get "b" s)) /\
    length (sys_calls (snd (get "b" s))) <= S (length (sys_calls s)) /\
    all_truthy (snd (get "b" s)).
Proof.
  split; [split; [reflexivity | apply map_Forall_singleton; reflexivity] |].
  apply default_factory_create_once; [reflexivity | apply map_Forall_singleton; reflexivity].
Defined.

(** Every store held by the registry has an identity below the heap's
    allocation counter. *)
Definition ids_below (s : Sys) : Prop :=
  map_Forall (fun _ st => store_id st < next_oid (sys_heap s)) (_stores (sys_reg s)).

(** With the fallback factory, [get] keeps identities below the counter,
    and a store it creates on a miss is a new object: it differs from every
    store the registry held before the call. *)
Theorem default_factory_fresh_store (name : string) (s : Sys) (st : Store) :
  _default_factory (sys_reg s) = default_default_factory -> ids_below s ->
  (forall st0, _stores (sys_reg s) !! name = Some st0 -> store_truthy st0 = false) ->
  fst (get name s) = Ok st ->
  (forall k st', _stores (sys_reg s) !! k = Some st' -> st' <> st) /\
  ids_below (snd (get name s)).
Proof.
  intros Hf Hids Hmiss Hr.
  assert (Hg : get name s =
            (Ok (mkStore (next_oid (sys_heap s)) true),
             mkSys (mkRegistry (<[name := mkStore (next_oid (sys_heap s)) true]> (_stores (sys_reg s)))
                               (_default_factory (sys_reg s)))
                   (mkHeap (S (next_oid (sys_heap s)))) (sys_calls s ++ [name]))).
  { unfold get. rewrite (get_miss_ok name (mkStore (next_oid (sys_heap s)) true)
                           (mkHeap (S (next_oid (sys_heap s))))); [| by rewrite Hf].
    destruct (_stores (sys_reg s) !! name) as [st0 |] eqn:Hl; [| done].
    by rewrite (Hmiss st0 eq_refl). }
  rewrite Hg in Hr |- *. injection Hr as <-. split.
  - intros k st' Hk ->. specialize (Hids k _ Hk). cbn in Hids. lia.
  - unfold ids_below; cbn. apply map_Forall_insert_2; [cbn; lia |].
    intros k st' Hk. specialize (Hids k st' Hk). cbn in Hids. lia.
Qed.

Lemma default_factory_fresh_store_witness :
  let s := mkSys (StoreRegistry_init (Some {[ "a" := mkStore 0 true ]}) None) (mkHeap 1) [] in
  (_default_factory (sys_reg s) = default_default_factory /\ ids_below s /\
   (forall st0, _stores (sys_reg s) !! "b" = Some st0 -> store_truthy st0 = false) /\
   fst (get "b" s) = Ok (mkStore 1 true)) /\
  ((forall k st', _stores (sys_reg s) !! k = Some st' -> st' <> mkStore 1 true) /\
   ids_below (snd (get "b" s))).
Proof.
  assert (Hids : ids_below (mkSys (StoreRegistry_init (Some {[ "a" := mkStore 0 true ]}) None)
                                  (mkHeap 1) [])).
  { apply map_Forall_singleton. cbn. lia. }
  assert (Hmiss : forall st0, _stores (sys_reg (mkSys (StoreRegistry_init
                     (Some {[ "a" := mkStore 0 true ]}) None) (mkHeap 1) [])) !! "b" = Some st0 ->
                   store_truthy st0 = false).
  { intros st0 H. discriminate H. }
  split; [split; [reflexivity | split; [exact Hids | split; [exact Hmiss | reflexivity]]] |].
  apply default_factory_fresh_store; [reflexivity | exact Hids | exact Hmiss | reflexivity].
Defined.

(** A thread past its factory call (or finished). *)
Definition past_call (t : GetThread) : nat :=
  match t with GT_start _ | GT_miss _ => 0 | _ => 1 end.

Lemma sum_list_with_insert {A} (f : A -> nat) (l : list A) (i : nat) (x y : A) :
  l !! i = Some y -> sum_list_with f (<[i := x]> l) + f y = sum_list_with f l + f x.
Proof.
  revert i. induction l as [| a l IH]; intros [| i] Hi; try discriminate Hi.
  - injection Hi as ->. cbn. lia.
  - change (sum_list_with f (<[S i := x]> (a :: l))) with (f a + sum_list_with f (<[i := x]> l)).
    specialize (IH i Hi). cbn [sum_list_with]. lia.
Qed.

Lemma sum_past_call_le (l : list GetThread) : sum_list_with past_call l <= length l.
Proof. induction l as [| t l IH]; cbn; [lia |]. destruct t; cbn; lia. Qed.

Lemma sched_step_inv (c : Config) (i base : nat) :
  length (sys_calls c.2) <= base + sum_list_with past_call c.1 ->
  length (sys_calls (sched_step c i).2) <= base + sum_list_with past_call (sched_step c i).1 /\
  length (sched_step c i).1 = length c.1.
Proof.
  destruct c as [ts s]. unfold sched_step. cbn.
  destruct (ts !! i) as [t |] eqn:Hi; [| done].
  intros Hinv.
  destruct (get_step t s) as [t' s'] eqn:Hstep. cbn.
  split; [| apply length_insert].
  pose proof (sum_list_with_insert past_call ts i t' t Hi) as Hsum.
  destruct t as [nm | nm | nm st | st | e]; cbn in Hstep.
  - destruct (_stores (sys_reg s) !! nm) as [st |]; [destruct (store_truthy st) |];
      injection Hstep as <- <-; cbn in *; lia.
  - unfold call_factory in Hstep.
    destruct (_default_factory (sys_reg s) nm (sys_heap s)) as [[a | e] h'];
      injection Hstep as <- <-; cbn in *; rewrite length_app; cbn; lia.
  - injection Hstep as <- <-; cbn in *; lia.
  - injection Hstep as <- <-; cbn in *; lia.
  - injection Hstep as <- <-; cbn in *; lia.
Qed.

(** Under any interleaving of [k] concurrent [get] calls, the factory is
    invoked at most [k] times: no call invokes it twice. *)
Theorem racy_gets_factory_bound (names : list string) (sched : list nat) (s : Sys) :
  length (sys_calls (run sched (map GT_start names, s)).2) <= length (sys_calls s) + length names.
Proof.
  assert (Hgen : forall (c : Config),
            length (sys_calls c.2) <= length (sys_calls s) + sum_list_with past_call c.1 ->
            length (sys_calls (run sched c).2) <=
              length (sys_calls s) + sum_list_with past_call (run sched c).1 /\
            length (run sched c).1 = length c.1).
  { unfold run. induction sched as [| i sched IH]; intros c Hc; cbn; [done |].
    destruct (sched_step_inv c i (length (sys_calls s)) Hc) as [H1 H2].
    destruct (IH _ H1) as [H3 H4]. split; [done | congruence]. }
  destruct (Hgen (map GT_start names, s)) as [H1 H2].
  { cbn. lia. }
  pose proof (sum_past_call_le (run sched (map GT_start names, s)).1) as Hle.
  rewrite H2 in Hle. cbn in Hle. rewrite length_map in Hle. lia.
Qed.

(** ** [__init__] and the caller's dictionary

    [self._stores = stores or {}] keeps a reference to the dict the caller
    passed when it is non-empty, and makes a fresh dict when it is empty
    ([{}] is falsy).  To see which dict later registrations write into,
    dicts live here on a heap of their own and are named by reference. *)

Record DictHeap := mkDictHeap { dicts : gmap nat (gmap string Store); next_dict : nat }.

(** [{}]: a fresh empty dict. *)
Definition new_dict (dh : DictHeap) : nat * DictHeap :=
  (next_dict dh, mkDictHeap (<[next_dict dh := ∅]> (dicts dh)) (S (next_dict dh))).

(** [stores or {}] for [stores : dict | None], giving the dict [_stores]
    refers to. *)
Definition init_stores_ref (stores : option nat) (dh : DictHeap) : nat * DictHeap :=
  match stores with
  | Some d =>
      match dicts dh !! d with
      | Some m => if bool_decide (m = ∅) then new_dict dh else (d, dh)
      | None => new_dict dh
      end
  | None => new_dict dh
  end.

(** [register] writing into the dict [_stores] refers to. *)
Definition register_ref (d : nat) (name : string) (store : Store) (override : bool)
    (dh : DictHeap) : res unit * DictHeap :=
  let m := match dicts dh !! d with Some m => m | None => ∅ end in
  if negb override && bool_decide (is_Some (m !! name))
  then (Raise (StoreExistsError name), dh)
  else (Ok tt, mkDictHeap (<[d := <[name := store]> m]> (dicts dh)) (next_dict dh)).

(** [register_ref] is [register] on the contents of the dict. *)
Lemma register_ref_agrees (d : nat) (m : gmap string Store) (name : string) (store : Store)
    (override : bool) (dh : DictHeap) (f : Factory) (h : Heap) (calls : list string) :
  dicts dh !! d = Some m ->
  fst (register_ref d name store override dh) =
    fst (register name store override (mkSys (mkRegistry m f) h calls)) /\
  dicts (snd (register_ref d name store override dh)) !! d =
    Some (_stores (sys_reg (snd (register name store override (mkSys (mkRegistry m f) h calls))))).
Proof.
  intros Hd. unfold register_ref, register. rewrite Hd. cbn.
  destruct (negb override && _); cbn; [by rewrite Hd | by rewrite lookup_insert_eq].
Qed.

(** A registry built from a non-empty dict shares it with the caller: a
    later [register] shows through the caller's reference.  A registry
    built from an empty dict uses a fresh one: the caller's dict stays
    empty. *)
Theorem init_shares_nonempty_dict (d : nat) (m : gmap string Store) (dh : DictHeap)
    (name : string) (store : Store) :
  dicts dh !! d = Some m -> dicts dh !! next_dict dh = None ->
  let '(r, dh1) := init_stores_ref (Some d) dh in
  let '(_, dh2) := register_ref r name store true dh1 in
  (m <> ∅ -> r = d /\ dicts dh2 !! d = Some (<[name := store]> m)) /\
  (m = ∅ -> r <> d /\ dicts dh2 !! d = Some ∅).
Proof.
  intros Hd Hfresh. unfold init_stores_ref. rewrite Hd.
  assert (Hne : next_dict dh <> d) by (intros E; rewrite E in Hfresh; congruence).
  destruct (bool_decide (m = ∅)) eqn:Hb.
  - apply bool_decide_eq_true_1 in Hb. subst m.
    unfold new_dict, register_ref; cbn.
    split; [intros []; done |]. intros _. split; [done |].
    rewrite lookup_insert_ne by done. by rewrite lookup_insert_ne.
  - apply bool_decide_eq_false_1 in Hb.
    unfold register_ref; cbn. rewrite Hd. cbn.
    split; [| intros Hm; contradiction]. intros _. split; [done |]. apply lookup_insert_eq.
Qed.

(** The caller's dict [{"a": store0}] at reference 0. *)
Definition caller_dict : gmap string Store := {[ "a" := mkStore 0 true ]}.
Definition caller_heap : DictHeap := mkDictHeap {[ 0 := caller_dict ]} 1.

Lemma init_shares_nonempty_dict_witness :
  (dicts caller_heap !! 0 = Some caller_dict /\ dicts caller_heap !! next_dict caller_heap = None) /\
  (let '(r, dh1) := init_stores_ref (Some 0) caller_heap in
   let '(_, dh2) := register_ref r "b" (mkStore 1 true) true dh1 in
   (caller_dict <> ∅ -> r = 0 /\ dicts dh2 !! 0 = Some (<[ "b" := mkStore 1 true ]> caller_dict)) /\
   (caller_dict = ∅ -> r <> 0 /\ dicts dh2 !! 0 = Some ∅)).
Proof.
  split; [split; reflexivity |].
  apply init_shares_nonempty_dict; reflexivity.
Defined.
